(** * ts-fs: an in-memory filesystem, its paths and its command dispatcher

    A shallow embedding of [src/index.ts].  JavaScript strings are modelled
    as [string] (sequences of 8-bit code units), numbers that the code only
    uses as integers as [Z], objects used as dictionaries as [gmap], and the
    two process-wide singletons [env] and [fs] as explicit arguments or as
    the state of a small state-and-exception monad. *)

From Stdlib Require Import ZArith String Ascii List Bool Lia.
From stdpp Require Import base option gmap strings.
Import ListNotations.

Set Warnings "-register-all".

Local Open Scope Z_scope.
Local Open Scope string_scope.
Local Open Scope list_scope.

(** ** Data model *)

Module Types.

Record FsPermission := {
  read : bool;
  write : bool;
  execute : bool;
}.

Record FsPermissions := {
  user : FsPermission;
  group : FsPermission;
  other : FsPermission;
}.

Record FsUser := {
  user_name : string;
  uid : Z;
  gid : Z;
  groups : list Z;
}.

Record FsGroup := {
  group_name : string;
  group_gid : Z;
}.

(** [owner.group] is [fsGroups[owner.gid]], which is [undefined] for a gid
    that the registry does not hold: hence the [option]. *)
Record FsOwner := {
  owner_user : FsUser;
  owner_group : option FsGroup;
}.

(** [name] is [string | null]; [modified] is a [Date], kept as the number
    of milliseconds it wraps. *)
Record FsMetadata := {
  name : option string;
  owner : FsOwner;
  permissions : FsPermissions;
  modified : Z;
}.

(** [FsNode = (FsFile | FsDirectory) & FsMetadata]: the constructor is the
    [type] tag. *)
Inductive FsNode :=
| File (meta : FsMetadata) (contents : string)
| Directory (meta : FsMetadata) (contents : list FsNode).

Record Path := { path : string }.

Record Fs := { root : FsNode }.

Record Env := {
  cwd : Path;
  env_user : FsUser;
  env_vars : gmap string string;
}.

End Types.
Import Types.

Definition node_meta (n : FsNode) : FsMetadata :=
  match n with
  | File m _ => m
  | Directory m _ => m
  end.

Definition node_name (n : FsNode) : option string := name (node_meta n).

Definition is_file (n : FsNode) : bool :=
  match n with
  | File _ _ => true
  | Directory _ _ => false
  end.

(** ** The JavaScript primitives the code relies on *)

Module Js.

(** What a call can end in: a returned value or a thrown exception. *)
Inductive Error := TypeError (msg : string).

Inductive completion (A : Type) :=
| Normal (v : A)
| Throw (e : Error).
Arguments Normal {A} v.
Arguments Throw {A} e.

(** The values a [void] function may hand back. *)
Inductive Value :=
| Undefined
| Str (s : string).

(** A number as [Number(...)] produces it. *)
Inductive Num :=
| NaN
| Int (z : Z).

Definition is_digit (c : ascii) : bool :=
  let n := nat_of_ascii c in (48 <=? n)%nat && (n <=? 57)%nat.

Definition is_white (c : ascii) : bool :=
  let n := nat_of_ascii c in
  ((9 <=? n)%nat && (n <=? 13)%nat) || (n =? 32)%nat || (n =? 160)%nat.

(** [Number(c)] for a string [c] of one code unit. *)
Definition Number (c : ascii) : Num :=
  if is_digit c then Int (Z.of_nat (nat_of_ascii c) - 48)
  else if is_white c then Int 0
  else NaN.

(** [ToInt32], applied by [&] to its operands; [None] stands for
    [undefined], the value of an array read out of range. *)
Definition ToInt32 (v : option Num) : Z :=
  match v with
  | Some (Int z) => (z + 2 ^ 31) mod 2 ^ 32 - 2 ^ 31
  | Some NaN => 0
  | None => 0
  end.

Definition band (a : option Num) (b : Z) : Z :=
  Z.land (ToInt32 a) b.

(** [s.split('')] *)
Definition chars (s : string) : list ascii := list_ascii_of_string s.

(** [s.split(sep)] for a separator of one code unit: never empty. *)
Fixpoint split (sep : ascii) (s : string) : list string :=
  match s with
  | EmptyString => [EmptyString]
  | String c s' =>
      if Ascii.eqb c sep then EmptyString :: split sep s'
      else match split sep s' with
           | h :: t => String c h :: t
           | [] => [String c EmptyString]
           end
  end.

(** [l.join(sep)] *)
Fixpoint join (sep : string) (l : list string) : string :=
  match l with
  | [] => EmptyString
  | [x] => x
  | x :: rest => x +:+ sep +:+ join sep rest
  end.

Definition startsWith (s pre : string) : bool := String.prefix pre s.

Fixpoint last_char (s : string) : option ascii :=
  match s with
  | EmptyString => None
  | String c EmptyString => Some c
  | String _ s' => last_char s'
  end.

(** [s.endsWith(c)] for [c] of one code unit. *)
Definition endsWith (s : string) (c : ascii) : bool :=
  match last_char s with
  | Some d => Ascii.eqb d c
  | None => false
  end.

(** [a.pop()], the value dropped: an empty array stays empty. *)
Definition pop {A} (l : list A) : list A := removelast l.

(** [a.push(x)] *)
Definition push {A} (l : list A) (x : A) : list A := l ++ [x].

End Js.

(** ** Identity registry and default permissions *)

Definition rwx (r w x : bool) : FsPermission :=
  {| read := r; write := w; execute := x |}.

Module defaultPermissions.
Definition DIRECTORY : Types.FsPermissions :=
  {| user := rwx true true true;
     group := rwx true true true;
     other := rwx true false true |}.
Definition FILE : Types.FsPermissions :=
  {| user := rwx true true false;
     group := rwx true true false;
     other := rwx true false false |}.
End defaultPermissions.

Definition fsGroups : gmap Z FsGroup :=
  <[ 0 := {| group_name := "root"; group_gid := 0 |} ]>
  (<[ 1000 := {| group_name := "nyx"; group_gid := 1000 |} ]> ∅).

Definition user_root : FsUser :=
  {| user_name := "root"; uid := 0; gid := 0; groups := [] |}.

Definition user_nyx : FsUser :=
  {| user_name := "nyx"; uid := 1000; gid := 1000; groups := [] |}.

Definition fsUsers : gmap Z FsUser :=
  <[ 0 := user_root ]> (<[ 1000 := user_nyx ]> ∅).

(** ** Permission model *)

(** The argument of [FsPermissions]: [string | number | FsPermissions]. *)
Inductive PermSource :=
| PermString (s : string)
| PermNumber (n : Z)
| PermSet (p : Types.FsPermissions).

(** The octal literal [0o655]. *)
Definition o655 : Z := 6 * 8 ^ 2 + 5 * 8 + 5.

(** One triad, as lines 129-133 build it from [perms[i]]. *)
Definition triad (d : option Js.Num) : FsPermission :=
  {| read := Z.eqb (Js.band d 4) 1;
     write := Z.eqb (Js.band d 2) 1;
     execute := Z.eqb (Js.band d 1) 1 |}.

Definition of_perms (perms : list Js.Num) : Types.FsPermissions :=
  {| user := triad (perms !! 0%nat);
     group := triad (perms !! 1%nat);
     other := triad (perms !! 2%nat) |}.

Definition FsPermissions (permissions : PermSource) : Types.FsPermissions :=
  match permissions with
  | PermString s => of_perms (map Js.Number (Js.chars s))
  | PermNumber _ =>
      of_perms [ Js.Int (Z.land o655 7);
                 Js.Int (Z.land (Z.shiftr o655 3) 7);
                 Js.Int (Z.land (Z.shiftr o655 6) 7) ]
  | PermSet p => p
  end.

(** ** Node construction

    [env.user] and [new Date()] are read from the surroundings: both are
    arguments here.  An omitted argument is [None]. *)

Definition FsDirectory (env : Types.Env) (now : Z) (name : option string)
    (files : option (list FsNode)) (owner : option FsUser)
    (permissions : option PermSource) : FsNode :=
  let owner := default (env_user env) owner in
  let permissions :=
    FsPermissions (default (PermSet defaultPermissions.DIRECTORY) permissions) in
  Directory
    {| name := name;
       owner := {| owner_user := owner; owner_group := fsGroups !! gid owner |};
       permissions := permissions;
       modified := now |}
    (default [] files).

Definition FsFile (env : Types.Env) (now : Z) (name : option string)
    (content : option string) (owner : option FsUser)
    (permissions : option PermSource) : FsNode :=
  let owner := default (env_user env) owner in
  let permissions :=
    FsPermissions (default (PermSet defaultPermissions.DIRECTORY) permissions) in
  File
    {| name := name;
       owner := {| owner_user := owner; owner_group := fsGroups !! gid owner |};
       permissions := permissions;
       modified := now |}
    (default "" content).

(** ** Path *)

Definition slash : ascii := "/"%char.

Definition Path (path : string) : Types.Path := {| path := path |}.

Definition isAbsolute (this : Types.Path) : bool :=
  Js.startsWith (path this) "/".

(** [filter(v => v)] keeps the strings that are truthy: the non-empty ones. *)
Definition truthy (v : string) : bool := negb (String.eqb v "").

Definition parts (this : Types.Path) : list string :=
  List.filter truthy (Js.split slash (path this)).

Definition toString (this : Types.Path) : string := path this.

Definition append (this : Types.Path) (part : string + Types.Path) : Types.Path :=
  let part := match part with inl s => s | inr p => toString p end in
  if Js.endsWith (path this) slash then Path (path this +:+ part)
  else Path (path this +:+ "/" +:+ part).

(** The body of the [for (let part of parts)] loop, on the array [res]. *)
Definition canon_step (res : list string) (part : string) : list string :=
  if String.eqb part ".." then Js.pop res
  else if String.eqb part "." then res
  else Js.push res part.

Definition canonicalize (env : Types.Env) (this : Types.Path) : Types.Path :=
  let tmp := if negb (isAbsolute this) then append (cwd env) (inr this) else this in
  let res := fold_left canon_step (parts tmp) [] in
  Path ("/" +:+ Js.join "/" res).

(** ** Filesystem *)

Definition Fs (root : FsNode) : Types.Fs := {| root := root |}.

(** [node.name === s] for [name : string | null]. *)
Definition name_is (s : string) (node : FsNode) : bool :=
  match node_name node with
  | Some n => String.eqb n s
  | None => false
  end.

(** The loop of [resolve] from index [i] on, [parts] being what is left of
    the segments: at [i == parts.length] the current node is returned. *)
Fixpoint walk (currentNode : FsNode) (parts : list string) : option FsNode :=
  match parts with
  | [] => Some currentNode
  | part :: rest =>
      match currentNode with
      | File _ _ => None
      | Directory _ contents =>
          match find (name_is part) contents with
          | Some node => walk node rest
          | None => None
          end
      end
  end.

(** [undefined] is [None]. *)
Definition resolve (this : Types.Fs) (path : Types.Path) : option FsNode :=
  walk (root this) (parts path).

(** ** Execution environment *)

(** Lines 286-297, once [user] is known to be an object. *)
Definition Env_for (user : FsUser) : Types.Env :=
  let home := append (Path "/home") (inl (user_name user)) in
  {| env_user := user;
     cwd := home;
     env_vars :=
       <[ "HOME" := toString home ]>
       (<[ "PWD" := toString home ]>
       (<[ "TMPDIR" := "/tmp" ]>
       (<[ "PS1" := "[%u@%h:%p]$ " ]>
       (<[ "PATH" := "/bin" ]> ∅)))) |}.

(** [fsUsers[uid]] is [undefined] for a uid the registry lacks, and reading
    [user.name] then throws. *)
Definition Env (uid : Z) : Js.completion Types.Env :=
  match fsUsers !! uid with
  | None =>
      Js.Throw (Js.TypeError "Cannot read properties of undefined (reading 'name')")
  | Some user => Js.Normal (Env_for user)
  end.

(** [export const env = Env(1000)] *)
Definition env : Types.Env := Env_for user_nyx.

(** ** The seeded tree (lines 299-332) *)

Definition o770 : Z := 7 * 8 ^ 2 + 7 * 8.

Definition fs (env : Types.Env) (now : Z) : Types.Fs :=
  let dir name files owner perms := FsDirectory env now name (Some files) owner perms in
  let file name content := FsFile env now (Some name) (Some content) None None in
  Fs
    (dir None [
      dir (Some "bin") [
        file "tree" "bins.tree(fs.resolve(Path($@.join()).canonicalize()))"
      ] (fsUsers !! 0) None;
      dir (Some "home") [
        dir (Some "nyx") [
          dir (Some "some dir") [
            dir (Some "another dir") [
              file "Hello World" "Wow thats a lot of spaces";
              file "NoSpace" "Wow thats a lot of spaces"
            ] None None;
            dir (Some "oops, all dir") [
              file "nodir" "Wow thats a lot of spaces";
              file "even-some-hypens" "Wow thats a lot of spaces"
            ] None None
          ] None None;
          dir (Some ".config") [
            dir (Some "nvim") [
              file "init.lua" "Check ../emacs/init.el"
            ] None None;
            dir (Some "emacs") [
              file "init.el" "(load-theme 'catppuccin t)"
            ] None None
          ] None None;
          file "user.txt" "Hello World!"
        ] None None
      ] (fsUsers !! 0) None;
      dir (Some "root") [
        file "root.txt" "Hello R00t!"
      ] (fsUsers !! 0) (Some (PermNumber o770))
    ] (fsUsers !! 0) None).

(** ** Command line scanner (lines 392-411) *)

Definition dquote : ascii := "034"%char.
Definition backslash : ascii := "\"%char.
Definition space : ascii := " "%char.

Record scan := {
  part : string;
  res : list string;
  quoted : bool;
}.

Definition is_char (c : ascii) (o : option ascii) : bool :=
  match o with
  | Some d => Ascii.eqb d c
  | None => false
  end.

(** [v[i]]: [undefined] out of range, and so at index [-1]. *)
Definition char_at (v : string) (i : nat) : option ascii := String.get i v.

Definition char_before (v : string) (i : nat) : option ascii :=
  match i with
  | O => None
  | S j => String.get j v
  end.

(** [part += char] *)
Definition add_char (part : string) (char : option ascii) : string :=
  match char with
  | Some c => part +:+ String c EmptyString
  | None => part +:+ "undefined"
  end.

(** The body of the loop, [char] being [v[i]] and [prev] being [v[i - 1]]. *)
Definition scan_char (prev char : option ascii) (st : scan) : scan :=
  if is_char dquote char && negb (is_char backslash prev) then
    {| part := part st; res := res st; quoted := negb (quoted st) |}
  else if is_char space char && negb (quoted st) then
    {| part := ""; res := Js.push (res st) (part st); quoted := quoted st |}
  else
    {| part := add_char (part st) char; res := res st; quoted := quoted st |}.

(** One turn of the loop, at index [i]. *)
Definition scan_step (v : string) (st : scan) (i : nat) : scan :=
  scan_char (char_before v i) (char_at v i) st.

Definition scan_init : scan := {| part := ""; res := []; quoted := false |}.

(** The state after the turns [0 .. n-1]. *)
Definition scan_upto (v : string) (n : nat) : scan :=
  fold_left (scan_step v) (seq 0 n) scan_init.

Definition tokenize (v : string) : list string :=
  let st := scan_upto v (String.length v) in
  Js.push (res st) (part st).

(** ** Command dispatcher

    [handleCommand] reads the singletons [env] and [fs], writes to the
    console and calls [eval], which may do anything to them: a state and
    exception monad over the three. *)

Record World := {
  w_env : Types.Env;
  w_fs : Types.Fs;
  console : list string;
}.

Definition M (A : Type) : Type := World -> Js.completion A * World.

Definition ret {A} (a : A) : M A := fun w => (Js.Normal a, w).

Definition bind {A B} (m : M A) (k : A -> M B) : M B :=
  fun w =>
    match m w with
    | (Js.Normal a, w') => k a w'
    | (Js.Throw e, w') => (Js.Throw e, w')
    end.

Definition throw {A} (e : Js.Error) : M A := fun w => (Js.Throw e, w).

Definition get_world : M World := fun w => (Js.Normal w, w).

Definition console_log (line : string) : M unit :=
  fun w =>
    (Js.Normal tt,
     {| w_env := w_env w; w_fs := w_fs w; console := console w ++ [line] |}).

Declare Scope js_scope.
Delimit Scope js_scope with js.
Notation "x <- m ;; k" := (bind m (fun x => k))
  (at level 100, m at next level, right associativity) : js_scope.
Notation "m ;;; k" := (bind m (fun _ => k))
  (at level 100, right associativity) : js_scope.

(** [a === b] between a [string | null] and a [string | undefined]: [null]
    and [undefined] are different values. *)
Definition strict_eq (a : option string) (b : option string) : bool :=
  match a, b with
  | Some x, Some y => String.eqb x y
  | _, _ => false
  end.

(** A value inside a template literal. *)
Definition show (o : option string) : string := default "undefined" o.

Section Dispatcher.

(** [eval] and [String.prototype.replaceAll] are the host's. *)
Variable js_eval : string -> M unit.
Variable js_replaceAll : string -> string -> string -> string.

(** The source text handed to [eval]. *)
Definition substituted (contents : string) (args : list string) : string :=
  let q := String dquote EmptyString in
  js_replaceAll contents "$@"
    ("[" +:+ Js.join "," (map (fun v => q +:+ v +:+ q) args) +:+ "]").

(** The loop over [env.env.PATH.split(":")]. *)
Fixpoint search (cmd : option string) (args : list string)
    (paths : list string) : M Js.Value :=
  match paths with
  | [] => ret Js.Undefined
  | path :: rest =>
      (w <- get_world ;;
       match resolve (w_fs w) (Path path) with
       | Some (Directory _ contents) =>
           match find (fun f => strict_eq (node_name f) cmd) contents with
           | Some (File _ body) =>
               console_log ("Output of " +:+ show cmd +:+ " with args "
                            +:+ Js.join "," args) ;;;
               js_eval (substituted body args) ;;;
               search cmd args rest
           | _ => ret Js.Undefined
           end
       | _ => search cmd args rest
       end)%js
  end.

Definition handleCommand (v : string) : M Js.Value :=
  let res := tokenize v in
  let cmd := head res in
  let args := tail res in
  (w <- get_world ;;
   match env_vars (w_env w) !! "PATH" with
   | None =>
       throw (Js.TypeError "Cannot read properties of undefined (reading 'split')")
   | Some PATH => search cmd args (Js.split ":"%char PATH)
   end)%js.

End Dispatcher.

(** The session the page starts in: [env], the seeded tree built at time [0]
    and an empty console. *)
Definition world0 : World :=
  {| w_env := env; w_fs := fs env 0; console := [] |}.

(** ** What the specification words say, for comparison with the code *)

Module Spec.

(** Section 4.1: a digit decodes by AND against 4, 2, 1, compared non-zero. *)
Definition decode_digit (d : Z) : FsPermission :=
  {| read := negb (Z.eqb (Z.land d 4) 0);
     write := negb (Z.eqb (Z.land d 2) 0);
     execute := negb (Z.eqb (Z.land d 1) 0) |}.

Definition digit_value (c : ascii) : Z := Z.of_nat (nat_of_ascii c) - 48.

(** Section 4.1, symbolic string: the three digits are user, group, other. *)
Definition from_symbolic (a b c : ascii) : Types.FsPermissions :=
  {| user := decode_digit (digit_value a);
     group := decode_digit (digit_value b);
     other := decode_digit (digit_value c) |}.

(** Section 4.1, numeric mode: three base-8 digits, the least significant
    one being other, then group, then user. *)
Definition from_numeric (n : Z) : Types.FsPermissions :=
  {| user := decode_digit (Z.land (Z.shiftr n 6) 7);
     group := decode_digit (Z.land (Z.shiftr n 3) 7);
     other := decode_digit (Z.land n 7) |}.

(** Section 4.3: the output segment stack, its top at the head of the list.
    Popping the empty stack leaves it empty. *)
Fixpoint run_stack (stack : list string) (segments : list string) : list string :=
  match segments with
  | [] => stack
  | seg :: rest =>
      if String.eqb seg ".." then run_stack (tail stack) rest
      else if String.eqb seg "." then run_stack stack rest
      else run_stack (seg :: stack) rest
  end.

Definition rebase (cwd this : Types.Path) : Types.Path :=
  if isAbsolute this then this else append cwd (inl (path this)).

Definition canonicalize (cwd this : Types.Path) : Types.Path :=
  Path ("/" +:+ Js.join "/" (rev (run_stack [] (parts (rebase cwd this))))).

End Spec.

(** The loop of the scanner as a recursion over the characters left, [prev]
    being the character just scanned: used to reason about whole lines. *)
Fixpoint scan_from (prev : option ascii) (st : scan) (s : string) : scan :=
  match s with
  | EmptyString => st
  | String c s' => scan_from (Some c) (scan_char prev (Some c) st) s'
  end.

(** [p] put in front of the first string of [l]. *)
Definition prepend (p : string) (l : list string) : list string :=
  match l with
  | [] => [p]
  | h :: t => (p +:+ h) :: t
  end.

Definition has_char (c : ascii) (s : string) : bool :=
  existsb (Ascii.eqb c) (Js.chars s).

(** A segment of a canonical path: not empty, not [.] and not [..]. *)
Definition canonical_segment (s : string) : bool :=
  truthy s && negb (String.eqb s ".") && negb (String.eqb s "..").

(** A raw string in canonical form: the root [/], or a separator followed by
    canonical segments with one separator between any two. *)
Definition is_canonical (p : string) : bool :=
  match p with
  | EmptyString => false
  | String c rest =>
      Ascii.eqb c slash
      && (String.eqb rest "" || forallb canonical_segment (Js.split slash rest))
  end.

(** No child of the directory that [dir] resolves to is a File named [cmd]. *)
Definition dir_lacks (w : World) (cmd : option string) (dir : string) : bool :=
  match resolve (w_fs w) (Path dir) with
  | Some (Directory _ contents) =>
      forallb (fun f => negb (strict_eq (node_name f) cmd && is_file f)) contents
  | _ => true
  end.

(** The command name matches no File in any directory that [PATH] lists. *)
Definition no_executable (w : World) (PATH : string) (cmd : option string) : bool :=
  forallb (dir_lacks w cmd) (Js.split ":"%char PATH).

(** ** The binaries (lines 334-373)

    [tree] and [cat] only print: each is the list of the lines it hands to
    [console.log], in order.  [cat] reads the singletons [env] and [fs], which
    are arguments here. *)

(** A [string | null] inside a template literal. *)
Definition show_name (o : option string) : string := default "null" o.

(** The column added for a child drawn with [char]. *)
Definition column (char : string) : string :=
  if String.eqb char "`" then " " else "|".

Fixpoint _tree (node : FsNode) (depthBuf : list string) : list string :=
  match node with
  | File _ _ => []
  | Directory _ contents =>
      (fix loop (l : list FsNode) : list string :=
         match l with
         | [] => []
         | file :: rest =>
             let char := match rest with [] => "`" | _ => "|" end in
             match file with
             | File _ _ =>
                 [Js.join "  " depthBuf +:+ char +:+ "--"
                  +:+ show_name (node_name file)]
             | Directory _ _ =>
                 (Js.join "  " depthBuf +:+ char +:+ "--"
                  +:+ show_name (node_name file) +:+ "/")
                 :: _tree file (depthBuf ++ [column char])
             end ++ loop rest
         end) contents
  end.

(** The loop of [tree] itself, over the children of the node. *)
Fixpoint tree_loop (l : list FsNode) : list string :=
  match l with
  | [] => []
  | file :: rest =>
      let char := match rest with [] => "`" | _ => "|" end in
      match file with
      | File _ _ => [char +:+ "--" +:+ show_name (node_name file)]
      | Directory _ _ =>
          (char +:+ "--" +:+ show_name (node_name file) +:+ "/")
          :: _tree file [column char; ""]
      end ++ tree_loop rest
  end.

Definition tree (node : FsNode) : list string :=
  default "/" (node_name node)
  :: match node with
     | File _ _ => []
     | Directory _ contents => tree_loop contents
     end.

Definition cat (e : Types.Env) (fs : Types.Fs) (path : Types.Path) : list string :=
  match resolve fs (canonicalize e path) with
  | Some (File _ contents) => [contents]
  | _ => []
  end.

(** ** Measures and predicates used in the statements *)

(** The number of nodes of a subtree, its root included. *)
Fixpoint node_count (n : FsNode) : nat :=
  match n with
  | File _ _ => 1%nat
  | Directory _ contents => S (list_sum (map node_count contents))
  end.


(** The string a [string | Path] argument stands for. *)
Definition part_string (part : string + Types.Path) : string :=
  match part with
  | inl s => s
  | inr p => toString p
  end.

(** [dir] resolves to a directory. *)
Definition is_directory_at (w : World) (dir : string) : bool :=
  match resolve (w_fs w) (Path dir) with
  | Some (Directory _ _) => true
  | _ => false
  end.

(** * Properties *)

(** ** Permission model *)

Lemma band_small (z m : Z) :
  0 <= z < 2 ^ 31 -> Js.band (Some (Js.Int z)) m = Z.land z m.
Proof.
  intros Hz. unfold Js.band, Js.ToInt32.
  replace ((z + 2 ^ 31) mod 2 ^ 32 - 2 ^ 31) with z; [reflexivity|].
  rewrite Z.mod_small; lia.
Qed.

(** Whatever octal digit is decoded, the code never reports read or write:
    [d & 4] is 0 or 4 and [d & 2] is 0 or 2, neither of which is 1. *)
Lemma triad_never_reads (d : Z) :
  0 <= d <= 7 ->
  triad (Some (Js.Int d)) = rwx false false (Z.odd d).
Proof.
  intros Hd.
  assert (Hc : d = 0 \/ d = 1 \/ d = 2 \/ d = 3 \/ d = 4 \/ d = 5 \/ d = 6 \/ d = 7) by lia.
  repeat (destruct Hc as [-> | Hc]); try subst d; reflexivity.
Qed.

(** So it is for every symbolic string of three octal digits: the triads
    only ever carry the execute bit. *)
Lemma triad_of_digit_char (d : nat) :
  (d <= 7)%nat ->
  triad (Some (Js.Number (ascii_of_nat (48 + d)))) = rwx false false (Nat.odd d).
Proof.
  intros Hd.
  do 8 (destruct d as [|d]; [reflexivity|]). lia.
Qed.

Lemma FsPermissions_symbolic_never_reads (a b c : nat) :
  (a <= 7)%nat -> (b <= 7)%nat -> (c <= 7)%nat ->
  FsPermissions
    (PermString (String (ascii_of_nat (48 + a))
                   (String (ascii_of_nat (48 + b))
                      (String (ascii_of_nat (48 + c)) EmptyString))))
  = {| user := rwx false false (Nat.odd a);
       group := rwx false false (Nat.odd b);
       other := rwx false false (Nat.odd c) |}.
Proof.
  intros Ha Hb Hc. unfold FsPermissions, of_perms.
  cbn [Js.chars list_ascii_of_string map lookup list_lookup].
  rewrite (triad_of_digit_char a Ha), (triad_of_digit_char b Hb),
    (triad_of_digit_char c Hc).
  reflexivity.
Qed.

(** C1 (the code departs from it): on the symbolic string 754 the code
    yields user --x, group --x, other ---, where decoding each digit by a
    non-zero test against 4, 2, 1 gives user rwx, group r-x, other r--. *)
Theorem FsPermissions_754 :
  FsPermissions (PermString "754")
  = {| user := rwx false false true;
       group := rwx false false true;
       other := rwx false false false |}
  /\ Spec.from_symbolic "7" "5" "4"
     = {| user := rwx true true true;
          group := rwx true false true;
          other := rwx true false false |}
  /\ FsPermissions (PermString "754") <> Spec.from_symbolic "7" "5" "4".
Proof.
  split; [reflexivity|]. split; [reflexivity|]. discriminate.
Qed.

(** C2 (the code departs from it): a numeric mode is never looked at.  Every
    number yields the triads of the constant 0o655 read from its least
    significant digit on, compared with 1: user --x, group --x, other ---;
    so 0o770 and 0o007 decode alike, where the decomposition of the passed
    number gives rwxrwx--- for 0o770. *)
Theorem FsPermissions_number_ignored :
  (forall n : Z,
     FsPermissions (PermNumber n)
     = {| user := rwx false false true;
          group := rwx false false true;
          other := rwx false false false |})
  /\ FsPermissions (PermNumber o770) = FsPermissions (PermNumber 7)
  /\ Spec.from_numeric o770 <> Spec.from_numeric 7
  /\ FsPermissions (PermNumber o770) <> Spec.from_numeric o770.
Proof.
  split; [intros n; reflexivity|].
  split; [reflexivity|]. split; discriminate.
Qed.

(** ** Node construction *)

(** C3 (the code departs from it): a File built without permissions gets the
    Directory default rwxrwxr-x, execute set in all three triads, not the
    File default rw-rw-r--. *)
Theorem FsFile_default_permissions :
  (forall (e : Types.Env) (now : Z) (name content : option string)
          (owner : option FsUser),
     permissions (node_meta (FsFile e now name content owner None))
     = defaultPermissions.DIRECTORY)
  /\ defaultPermissions.DIRECTORY <> defaultPermissions.FILE
  /\ execute (user defaultPermissions.DIRECTORY) = true
  /\ execute (user defaultPermissions.FILE) = false.
Proof.
  split; [intros; reflexivity|].
  split; [discriminate|]. split; reflexivity.
Qed.

(** ** Execution environment *)

Lemma env_is_Env_1000 : Env 1000 = Js.Normal env.
Proof. reflexivity. Qed.

(** C5 fails as stated: uid 42 is not registered, and [Env 42] returns
    nothing; it ends in a thrown TypeError. *)
Lemma Env_unknown_uid_throws_at_42 :
  fsUsers !! 42 = None /\ ~ (exists r : Types.Env, Env 42 = Js.Normal r).
Proof.
  split; [reflexivity|]. intros [r Hr]. discriminate Hr.
Qed.

(** C5, amended: for every uid that the identity registry lacks, [Env]
    returns no environment: reading [user.name] of the undefined lookup
    throws a TypeError, which reaches the caller as an exception. *)
Theorem Env_unknown_uid_throws (uid : Z) :
  fsUsers !! uid = None ->
  Env uid
  = Js.Throw (Js.TypeError "Cannot read properties of undefined (reading 'name')").
Proof.
  intros H. unfold Env. rewrite H. reflexivity.
Qed.

Lemma Env_unknown_uid_throws_witness :
  fsUsers !! 42 = None
  /\ Env 42
     = Js.Throw (Js.TypeError "Cannot read properties of undefined (reading 'name')").
Proof.
  split; [reflexivity | apply (Env_unknown_uid_throws 42); reflexivity].
Defined.

(** ** Strings *)

Section SplitJoin.

Variable sep : ascii.

Lemma split_nonempty (s : string) : Js.split sep s <> [].
Proof.
  destruct s as [|c s]; simpl; [discriminate|].
  destruct (Ascii.eqb c sep); [discriminate|].
  destruct (Js.split sep s); discriminate.
Qed.

Lemma join_cons_cons (d x y : string) (l : list string) :
  Js.join d (x :: y :: l) = x +:+ d +:+ Js.join d (y :: l).
Proof. reflexivity. Qed.

Lemma join_String (d : string) (c : ascii) (h : string) (t : list string) :
  Js.join d (String c h :: t) = String c (Js.join d (h :: t)).
Proof. destruct t; reflexivity. Qed.

(** Joining what was split gives the string back. *)
Lemma join_split (s : string) :
  Js.join (String sep EmptyString) (Js.split sep s) = s.
Proof.
  induction s as [|c s IH]; [reflexivity|].
  simpl Js.split. destruct (Ascii.eqb_spec c sep) as [->|Hne].
  - destruct (Js.split sep s) as [|h t] eqn:E.
    + exfalso. exact (split_nonempty s E).
    + rewrite join_cons_cons, IH. reflexivity.
  - destruct (Js.split sep s) as [|h t] eqn:E.
    + exfalso. exact (split_nonempty s E).
    + rewrite join_String, IH. reflexivity.
Qed.

End SplitJoin.

Lemma filter_all {A} (f : A -> bool) (l : list A) :
  forallb f l = true -> List.filter f l = l.
Proof.
  induction l as [|x l IH]; simpl; [reflexivity|].
  intros H. apply andb_true_iff in H as [Hx Hl].
  rewrite Hx, (IH Hl). reflexivity.
Qed.

Section SplitOfJoin.

Variable sep : ascii.

(** No piece of a split holds the separator. *)
Lemma split_no_sep (s : string) :
  forallb (fun x => negb (has_char sep x)) (Js.split sep s) = true.
Proof.
  induction s as [|c s IH]; [reflexivity|].
  cbn [Js.split]. destruct (Ascii.eqb c sep) eqn:Hc.
  - cbn [forallb]. rewrite IH. reflexivity.
  - destruct (Js.split sep s) as [|h t]; cbn [forallb] in *.
    + change (has_char sep (String c "")) with (Ascii.eqb sep c || false).
      rewrite Ascii.eqb_sym, Hc. reflexivity.
    + change (has_char sep (String c h)) with (Ascii.eqb sep c || has_char sep h).
      rewrite Ascii.eqb_sym, Hc. exact IH.
Qed.

(** A string without the separator followed by the separator is the first
    piece of the split. *)
Lemma split_first (x rest : string) :
  has_char sep x = false ->
  Js.split sep (x +:+ String sep rest) = x :: Js.split sep rest.
Proof.
  induction x as [|c x IH]; intros Hx.
  - change (Js.split sep (String sep rest) = "" :: Js.split sep rest).
    cbn [Js.split]. rewrite Ascii.eqb_refl. reflexivity.
  - change (has_char sep (String c x)) with (Ascii.eqb sep c || has_char sep x) in Hx.
    apply orb_false_iff in Hx as [Hc Hx].
    change (Js.split sep (String c (x +:+ String sep rest))
            = String c x :: Js.split sep rest).
    cbn [Js.split]. rewrite Ascii.eqb_sym, Hc, (IH Hx). reflexivity.
Qed.

Lemma split_plain (x : string) :
  has_char sep x = false -> Js.split sep x = [x].
Proof.
  induction x as [|c x IH]; intros Hx; [reflexivity|].
  change (has_char sep (String c x)) with (Ascii.eqb sep c || has_char sep x) in Hx.
  apply orb_false_iff in Hx as [Hc Hx].
  cbn [Js.split]. rewrite Ascii.eqb_sym, Hc, (IH Hx). reflexivity.
Qed.

(** Splitting what was joined gives the pieces back, when there is at least
    one and none holds the separator. *)
Lemma split_join (l : list string) :
  l <> [] ->
  forallb (fun x => negb (has_char sep x)) l = true ->
  Js.split sep (Js.join (String sep EmptyString) l) = l.
Proof.
  induction l as [|x l IH]; intros Hne Hall; [congruence|].
  cbn [forallb] in Hall. apply andb_true_iff in Hall as [Hx Hl].
  apply negb_true_iff in Hx.
  destruct l as [|y l].
  - apply split_plain, Hx.
  - rewrite join_cons_cons.
    change (String sep "" +:+ Js.join (String sep "") (y :: l))
      with (String sep (Js.join (String sep "") (y :: l))).
    rewrite (split_first _ _ Hx), IH; [reflexivity | discriminate | exact Hl].
Qed.

End SplitOfJoin.

Lemma append_assoc (a b c : string) : (a +:+ b) +:+ c = a +:+ (b +:+ c).
Proof.
  induction a as [|x a IH]; [reflexivity|].
  change (String x ((a +:+ b) +:+ c) = String x (a +:+ (b +:+ c))).
  rewrite IH. reflexivity.
Qed.

Lemma append_empty_r (a : string) : a +:+ "" = a.
Proof.
  induction a as [|x a IH]; [reflexivity|].
  change (String x (a +:+ "") = String x a). rewrite IH. reflexivity.
Qed.

Lemma length_snoc (a : string) (c : ascii) :
  String.length (a +:+ String c EmptyString) = S (String.length a).
Proof.
  induction a as [|x a IH]; [reflexivity|].
  change (S (String.length (a +:+ String c EmptyString)) = S (S (String.length a))).
  rewrite IH. reflexivity.
Qed.

Lemma last_char_snoc (a : string) (c : ascii) :
  Js.last_char (a +:+ String c EmptyString) = Some c.
Proof.
  induction a as [|x a IH]; [reflexivity|].
  change (Js.last_char (String x (a +:+ String c EmptyString)) = Some c).
  destruct (a +:+ String c EmptyString) eqn:E; [|exact IH].
  destruct a; discriminate E.
Qed.

Lemma forallb_weaken {A} (f g : A -> bool) (l : list A) :
  (forall x, f x = true -> g x = true) ->
  forallb f l = true -> forallb g l = true.
Proof.
  intros Hfg. rewrite !forallb_forall. intros H x Hx. apply Hfg, H, Hx.
Qed.

Lemma forallb_removelast {A} (f : A -> bool) (l : list A) :
  forallb f l = true -> forallb f (removelast l) = true.
Proof.
  destruct l as [|x l] using rev_ind; [intros; reflexivity|].
  rewrite removelast_last, forallb_app. intros H.
  apply andb_true_iff in H as [H _]. exact H.
Qed.

(** ** Path *)

Lemma rev_removelast {A} (l : list A) : rev (removelast l) = tail (rev l).
Proof.
  destruct l as [|x l] using rev_ind; [reflexivity|].
  rewrite removelast_last, rev_app_distr. reflexivity.
Qed.

(** The array of the code and the stack of the specification hold the same
    segments, in opposite orders. *)
Lemma canon_steps_stack (segs res : list string) :
  fold_left canon_step segs res = rev (Spec.run_stack (rev res) segs).
Proof.
  revert res. induction segs as [|seg segs IH]; intros res; simpl.
  - symmetry. apply rev_involutive.
  - unfold canon_step at 2.
    destruct (String.eqb seg "..").
    + rewrite IH. unfold Js.pop. rewrite rev_removelast. reflexivity.
    + destruct (String.eqb seg ".").
      * apply IH.
      * rewrite IH. unfold Js.push. rewrite rev_app_distr. reflexivity.
Qed.

(** Canonical segments are pushed one after the other. *)
Lemma canon_steps_canonical (segs res : list string) :
  forallb canonical_segment segs = true ->
  fold_left canon_step segs res = res ++ segs.
Proof.
  revert res. induction segs as [|seg segs IH]; intros res H; simpl.
  - symmetry. apply app_nil_r.
  - simpl in H. apply andb_true_iff in H as [Hseg Hsegs].
    unfold canonical_segment in Hseg.
    apply andb_true_iff in Hseg as [Hseg Hdd].
    apply andb_true_iff in Hseg as [_ Hd].
    apply negb_true_iff in Hd, Hdd.
    unfold canon_step at 2. rewrite Hdd, Hd.
    rewrite (IH _ Hsegs). unfold Js.push. rewrite <- app_assoc. reflexivity.
Qed.

Lemma canonical_segment_truthy (segs : list string) :
  forallb canonical_segment segs = true -> forallb truthy segs = true.
Proof.
  induction segs as [|s segs IH]; simpl; [reflexivity|].
  intros H. apply andb_true_iff in H as [Hs Hsegs].
  unfold canonical_segment in Hs.
  apply andb_true_iff in Hs as [Hs _]. apply andb_true_iff in Hs as [Hs _].
  rewrite Hs. exact (IH Hsegs).
Qed.

(** Leading [..] segments met on an empty array change nothing. *)
Lemma canon_steps_clamp (n : nat) (segs : list string) :
  fold_left canon_step (repeat ".." n ++ segs) [] = fold_left canon_step segs [].
Proof.
  induction n as [|n IH]; [reflexivity|exact IH].
Qed.

Lemma isAbsolute_slash (rest : string) :
  isAbsolute (Path (String slash rest)) = true.
Proof.
  unfold isAbsolute, Js.startsWith. simpl. destruct rest; reflexivity.
Qed.

(** C6: [canonicalize] is the stack algorithm of the specification: a
    relative path is rebased onto the current working directory, the segments
    are taken left to right, [..] pops, [.] is skipped, any other segment is
    pushed.  [/a/b/../c] gives [/a/c] under any environment, and [x] gives
    [/home/nyx/x] when the working directory is [/home/nyx]. *)
Theorem canonicalize_stack_algorithm :
  (forall (e : Types.Env) (this : Types.Path),
     canonicalize e this = Spec.canonicalize (cwd e) this)
  /\ (forall e : Types.Env, canonicalize e (Path "/a/b/../c") = Path "/a/c")
  /\ (forall (u : FsUser) (vars : gmap string string),
        canonicalize {| cwd := Path "/home/nyx"; env_user := u; env_vars := vars |}
          (Path "x")
        = Path "/home/nyx/x").
Proof.
  split; [|split; intros; reflexivity].
  intros e this. unfold canonicalize, Spec.canonicalize, Spec.rebase.
  rewrite canon_steps_stack. simpl rev.
  destruct (isAbsolute this); reflexivity.
Qed.

(** A raw string in canonical form is what [canonicalize] makes of it. *)
Lemma canonicalize_fixes_canonical (e : Types.Env) (p : string) :
  is_canonical p = true -> canonicalize e (Path p) = Path p.
Proof.
  destruct p as [|c rest]; simpl; [discriminate|].
  intros H. apply andb_true_iff in H as [Hc Hrest].
  apply Ascii.eqb_eq in Hc. subst c.
  unfold canonicalize. rewrite isAbsolute_slash.
  simpl negb. cbv iota.
  unfold parts. simpl path.
  change (Js.split slash (String slash rest)) with ("" :: Js.split slash rest).
  change (List.filter truthy ("" :: Js.split slash rest))
    with (List.filter truthy (Js.split slash rest)).
  apply orb_true_iff in Hrest as [Hroot | Hsegs].
  - apply String.eqb_eq in Hroot. subst rest. reflexivity.
  - rewrite (filter_all _ _ (canonical_segment_truthy _ Hsegs)).
    rewrite (canon_steps_canonical _ [] Hsegs). simpl app.
    change "/" with (String slash EmptyString) at 2.
    rewrite join_split. reflexivity.
Qed.

(** What the loop of [canonicalize] keeps: canonical segments without a
    separator inside. *)
Lemma canon_steps_keep (segs res : list string) :
  forallb (fun x => truthy x && negb (has_char slash x)) segs = true ->
  forallb (fun x => canonical_segment x && negb (has_char slash x)) res = true ->
  forallb (fun x => canonical_segment x && negb (has_char slash x))
    (fold_left canon_step segs res) = true.
Proof.
  revert res. induction segs as [|seg segs IH]; intros res Hsegs Hres; [exact Hres|].
  cbn [forallb] in Hsegs. apply andb_true_iff in Hsegs as [Hseg Hsegs].
  apply andb_true_iff in Hseg as [Ht Hns].
  cbn [fold_left]. apply IH; [exact Hsegs|].
  unfold canon_step.
  destruct (String.eqb seg "..") eqn:Hdd.
  - unfold Js.pop. apply forallb_removelast, Hres.
  - destruct (String.eqb seg ".") eqn:Hd; [exact Hres|].
    unfold Js.push. rewrite forallb_app, Hres. cbn [forallb].
    unfold canonical_segment. rewrite Ht, Hd, Hdd, Hns. reflexivity.
Qed.

Lemma parts_keep (p : Types.Path) :
  forallb (fun x => truthy x && negb (has_char slash x)) (parts p) = true.
Proof.
  unfold parts. pose proof (split_no_sep slash (path p)) as H.
  induction (Js.split slash (path p)) as [|x l IH]; [reflexivity|].
  cbn [forallb] in H. apply andb_true_iff in H as [Hx Hl].
  cbn [List.filter]. destruct (truthy x) eqn:Ht; [|exact (IH Hl)].
  cbn [forallb]. rewrite Ht, Hx. exact (IH Hl).
Qed.

(** The result of [canonicalize] is always in canonical form. *)
Lemma canonicalize_is_canonical (e : Types.Env) (this : Types.Path) :
  is_canonical (path (canonicalize e this)) = true.
Proof.
  unfold canonicalize.
  set (tmp := if negb (isAbsolute this) then append (cwd e) (inr this) else this).
  pose proof (canon_steps_keep (parts tmp) [] (parts_keep tmp) eq_refl) as Hkeep.
  destruct (fold_left canon_step (parts tmp) []) as [|x l] eqn:E; [reflexivity|].
  change (is_canonical (String slash (Js.join (String slash "") (x :: l))) = true).
  unfold is_canonical. rewrite Ascii.eqb_refl. cbn [andb].
  apply orb_true_iff. right.
  rewrite split_join.
  - revert Hkeep. apply forallb_weaken. intros y Hy.
    apply andb_true_iff in Hy as [Hy _]. exact Hy.
  - discriminate.
  - revert Hkeep. apply forallb_weaken. intros y Hy.
    apply andb_true_iff in Hy as [_ Hy]. exact Hy.
Qed.

(** Canonicalizing twice is canonicalizing once. *)
Lemma canonicalize_twice (e : Types.Env) (this : Types.Path) :
  canonicalize e (canonicalize e this) = canonicalize e this.
Proof.
  pose proof (canonicalize_is_canonical e this) as H.
  destruct (canonicalize e this) as [p]. exact (canonicalize_fixes_canonical e p H).
Qed.

(** C7: canonicalizing an absolute path that is already canonical gives the
    same path back. *)
Theorem canonicalize_idempotent (e : Types.Env) (p : string) :
  is_canonical p = true -> canonicalize e (Path p) = Path p.
Proof. exact (canonicalize_fixes_canonical e p). Qed.

Lemma canonicalize_idempotent_witness :
  is_canonical "/home/nyx/.config" = true
  /\ canonicalize env (Path "/home/nyx/.config") = Path "/home/nyx/.config".
Proof.
  split; [reflexivity | apply canonicalize_idempotent; reflexivity].
Defined.

(** C10: the result of [canonicalize] always starts with the separator; a
    [..] met while the array is empty is dropped, so that [..] segments in
    excess clamp to the root: [/..] gives [/] and [/../a] gives [/a]. *)
Theorem canonicalize_absolute_clamps :
  (forall (e : Types.Env) (this : Types.Path),
     isAbsolute (canonicalize e this) = true)
  /\ canon_step [] ".." = []
  /\ (forall (n : nat) (segs : list string),
        fold_left canon_step (repeat ".." n ++ segs) []
        = fold_left canon_step segs [])
  /\ (forall e : Types.Env, canonicalize e (Path "/..") = Path "/")
  /\ (forall e : Types.Env, canonicalize e (Path "/../a") = Path "/a").
Proof.
  split; [intros e this; apply isAbsolute_slash|].
  split; [reflexivity|].
  split; [exact canon_steps_clamp|].
  split; intros e; reflexivity.
Qed.

(** ** Filesystem *)

(** Walking a concatenation is walking its two halves in turn. *)
Lemma walk_app (n : FsNode) (a b : list string) :
  walk n (a ++ b)
  = match walk n a with
    | Some n' => walk n' b
    | None => None
    end.
Proof.
  revert n. induction a as [|x a IH]; intros n; simpl; [reflexivity|].
  destruct n as [m c | m contents]; [reflexivity|].
  destruct (find (name_is x) contents); [apply IH | reflexivity].
Qed.

Lemma walk_from_file (n : FsNode) (seg : string) (rest : list string) :
  is_file n = true -> walk n (seg :: rest) = None.
Proof. destruct n; [reflexivity | discriminate]. Qed.

(** C8: when the node reached before all segments are consumed is a File,
    [resolve] returns not-found: it never descends through a File. *)
Theorem resolve_never_descends_through_file
    (this : Types.Fs) (p : Types.Path)
    (consumed : list string) (seg : string) (rest : list string) (n : FsNode) :
  parts p = consumed ++ seg :: rest ->
  walk (root this) consumed = Some n ->
  is_file n = true ->
  resolve this p = None.
Proof.
  intros Hparts Hwalk Hfile. unfold resolve.
  rewrite Hparts, walk_app, Hwalk. apply walk_from_file, Hfile.
Qed.

Lemma resolve_never_descends_through_file_witness :
  parts (Path "/home/nyx/user.txt/x") = ["home"; "nyx"; "user.txt"] ++ "x" :: []
  /\ (exists n, walk (root (fs env 0)) ["home"; "nyx"; "user.txt"] = Some n
                /\ is_file n = true)
  /\ resolve (fs env 0) (Path "/home/nyx/user.txt/x") = None.
Proof.
  split; [reflexivity|]. split.
  - eexists. split; reflexivity.
  - eapply (resolve_never_descends_through_file (fs env 0)
              (Path "/home/nyx/user.txt/x") ["home"; "nyx"; "user.txt"] "x" []);
      reflexivity.
Defined.

(** ** Command line scanner *)

Lemma scan_upto_S (v : string) (n : nat) :
  scan_upto v (S n) = scan_step v (scan_upto v n) n.
Proof.
  unfold scan_upto. rewrite seq_S, fold_left_app. reflexivity.
Qed.

Lemma char_at_middle (a : string) (c : ascii) (b : string) :
  char_at (a +:+ String c b) (String.length a) = Some c.
Proof.
  unfold char_at. induction a as [|x a IH]; [reflexivity | exact IH].
Qed.

Lemma get_last_char (x : ascii) (a rest : string) :
  String.get (String.length a) (String x a +:+ rest) = Js.last_char (String x a).
Proof.
  revert x. induction a as [|y a IH]; intros x; [reflexivity|].
  change (String.get (String.length a) (String y a +:+ rest)
          = Js.last_char (String y a)).
  apply IH.
Qed.

Lemma char_before_middle (a rest : string) :
  char_before (a +:+ rest) (String.length a) = Js.last_char a.
Proof.
  destruct a as [|x a]; [reflexivity|]. apply get_last_char.
Qed.

(** The state after the character that follows the prefix [a] of
    [a ++ c :: b] has been scanned. *)
Lemma scan_after_prefix (a : string) (c : ascii) (b : string) :
  let v := a +:+ String c b in
  scan_upto v (S (String.length a))
  = let st := scan_upto v (String.length a) in
    if is_char dquote (Some c) && negb (is_char backslash (Js.last_char a)) then
      {| part := part st; res := res st; quoted := negb (quoted st) |}
    else if is_char space (Some c) && negb (quoted st) then
      {| part := ""; res := Js.push (res st) (part st); quoted := quoted st |}
    else
      {| part := part st +:+ String c EmptyString; res := res st;
         quoted := quoted st |}.
Proof.
  intros v. rewrite scan_upto_S. unfold scan_step, scan_char.
  unfold v. rewrite char_at_middle, char_before_middle. reflexivity.
Qed.

(** The turns at the indices of [b] inside [a ++ b] are the recursion over
    the characters of [b]. *)
Lemma scan_fold_from (b a : string) (st : scan) :
  fold_left (scan_step (a +:+ b)) (seq (String.length a) (String.length b)) st
  = scan_from (Js.last_char a) st b.
Proof.
  revert a st. induction b as [|c b IH]; intros a st; [reflexivity|].
  simpl String.length. simpl seq. simpl fold_left. simpl scan_from.
  unfold scan_step at 2.
  rewrite char_at_middle, char_before_middle.
  replace (a +:+ String c b) with ((a +:+ String c EmptyString) +:+ b)
    by (rewrite append_assoc; reflexivity).
  rewrite <- (length_snoc a c), IH, last_char_snoc. reflexivity.
Qed.

Lemma scan_upto_all (v : string) :
  scan_upto v (String.length v) = scan_from None scan_init v.
Proof. exact (scan_fold_from v "" scan_init). Qed.

Lemma prepend_empty (l : list string) : l <> [] -> prepend "" l = l.
Proof. destruct l; [congruence | reflexivity]. Qed.

(** On a stretch without quotes, scanned outside the quoted mode, the
    tokens are the pieces between the spaces. *)
Lemma scan_from_plain (s : string) (prev : option ascii) (st : scan) :
  has_char dquote s = false ->
  quoted st = false ->
  let r := scan_from prev st s in
  quoted r = false
  /\ res r ++ [part r] = res st ++ prepend (part st) (Js.split space s).
Proof.
  revert prev st. induction s as [|c s IH]; intros prev st Hq Hst.
  - cbn [scan_from Js.split prepend]. split; [exact Hst|].
    rewrite append_empty_r. reflexivity.
  - change (has_char dquote (String c s))
      with (Ascii.eqb dquote c || has_char dquote s) in Hq.
    apply orb_false_iff in Hq as [Hc Hs].
    cbn [scan_from Js.split].
    assert (Hstep : scan_char prev (Some c) st
                    = if Ascii.eqb c space
                      then {| part := ""; res := Js.push (res st) (part st);
                              quoted := false |}
                      else {| part := add_char (part st) (Some c); res := res st;
                              quoted := false |}).
    { unfold scan_char, is_char. rewrite (Ascii.eqb_sym c dquote), Hc, Hst.
      destruct (Ascii.eqb c space); reflexivity. }
    rewrite Hstep. clear Hstep.
    destruct (Ascii.eqb c space) eqn:Hsp.
    + destruct (IH (Some c) {| part := ""; res := Js.push (res st) (part st);
                               quoted := false |} Hs eq_refl) as [Hr1 Hr2].
      split; [exact Hr1|]. rewrite Hr2. cbn [part res prepend].
      rewrite (prepend_empty _ (split_nonempty space s)), append_empty_r.
      unfold Js.push. rewrite <- app_assoc. reflexivity.
    + destruct (IH (Some c) {| part := add_char (part st) (Some c); res := res st;
                               quoted := false |} Hs eq_refl) as [Hr1 Hr2].
      split; [exact Hr1|]. rewrite Hr2. cbn [part res add_char].
      destruct (Js.split space s) as [|h t] eqn:E.
      * exfalso. exact (split_nonempty space s E).
      * cbn [prepend]. rewrite append_assoc. reflexivity.
Qed.

(** A line without quotes is split at its spaces. *)
Lemma tokenize_plain (v : string) :
  has_char dquote v = false -> tokenize v = Js.split space v.
Proof.
  intros Hq. unfold tokenize, Js.push. rewrite scan_upto_all.
  destruct (scan_from_plain v None scan_init Hq eq_refl) as [_ H].
  rewrite H. simpl. apply prepend_empty, split_nonempty.
Qed.

(** C9: the scanner honours double quotes.  A quote not preceded by a
    backslash flips the quoted mode and adds nothing to the token or to the
    result; a quote preceded by a backslash leaves the mode as it is; a space
    met outside the quoted mode ends the token, and inside it is part of the
    token; the token being built when the line ends is always emitted, even
    when empty.  So [cat "hello world" x] gives the three tokens [cat],
    [hello world] and [x]. *)
Theorem tokenize_honors_quotes :
  (forall a b : string,
     let v := a +:+ String dquote b in
     let before := scan_upto v (String.length a) in
     let after := scan_upto v (S (String.length a)) in
     if is_char backslash (Js.last_char a)
     then quoted after = quoted before
     else after = {| part := part before; res := res before;
                     quoted := negb (quoted before) |})
  /\ (forall a b : string,
        let v := a +:+ String space b in
        let before := scan_upto v (String.length a) in
        let after := scan_upto v (S (String.length a)) in
        if quoted before
        then after = {| part := part before +:+ " "; res := res before;
                        quoted := true |}
        else after = {| part := ""; res := res before ++ [part before];
                        quoted := false |})
  /\ (forall v : string,
        tokenize v
        = res (scan_upto v (String.length v))
            ++ [part (scan_upto v (String.length v))])
  /\ tokenize "" = [""]
  /\ tokenize "a " = ["a"; ""]
  /\ tokenize ("cat " +:+ String dquote ("hello world" +:+ String dquote " x"))
     = ["cat"; "hello world"; "x"].
Proof.
  split; [|split; [|split; [|repeat split]]].
  - intros a b v before after. unfold after, v. rewrite scan_after_prefix.
    fold v. fold before.
    change (is_char dquote (Some dquote)) with true.
    change (is_char space (Some dquote)) with false.
    cbv zeta. cbn [andb negb].
    destruct (is_char backslash (Js.last_char a)); reflexivity.
  - intros a b v before after. unfold after, v. rewrite scan_after_prefix.
    fold v. fold before.
    change (is_char dquote (Some space)) with false.
    change (is_char space (Some space)) with true.
    cbv zeta. cbn [andb negb].
    destruct (quoted before); reflexivity.
  - intros v. reflexivity.
Qed.

(** ** Command dispatcher *)

Section DispatcherFacts.

Variable js_eval : string -> M unit.
Variable js_replaceAll : string -> string -> string -> string.

(** A child picked by name in a directory that holds no File of that name
    is not a File. *)
Lemma find_not_file (cmd : option string) (contents : list FsNode) (f : FsNode) :
  forallb (fun f => negb (strict_eq (node_name f) cmd && is_file f)) contents = true ->
  find (fun f => strict_eq (node_name f) cmd) contents = Some f ->
  is_file f = false.
Proof.
  intros Hall Hfind. apply find_some in Hfind as [Hin Heq].
  rewrite forallb_forall in Hall. specialize (Hall f Hin).
  rewrite Heq in Hall. simpl in Hall. apply negb_true_iff in Hall. exact Hall.
Qed.

(** The search leaves the world as it found it and returns [undefined] when
    no listed directory holds a File of the name. *)
Lemma search_not_found (cmd : option string) (args paths : list string) (w : World) :
  forallb (dir_lacks w cmd) paths = true ->
  search js_eval js_replaceAll cmd args paths w = (Js.Normal Js.Undefined, w).
Proof.
  induction paths as [|dir paths IH]; intros Hall; [reflexivity|].
  simpl in Hall. apply andb_true_iff in Hall as [Hdir Hpaths].
  simpl. unfold bind, get_world. unfold dir_lacks in Hdir.
  destruct (resolve (w_fs w) (Path dir)) as [[m c | m contents]|].
  - exact (IH Hpaths).
  - destruct (find (fun f => strict_eq (node_name f) cmd) contents)
      as [f|] eqn:Hfind; [|reflexivity].
    pose proof (find_not_file _ _ _ Hdir Hfind) as Hf.
    destruct f; [discriminate Hf | reflexivity].
  - exact (IH Hpaths).
Qed.

End DispatcherFacts.

(** When the name is that of a File on the PATH, the dispatcher prints its
    line and hands the substituted contents to [eval]: here [eval] records
    its argument on the console and [replaceAll] yields the replacement. *)
Example handleCommand_tree :
  console
    (snd (handleCommand (fun src => console_log ("eval " +:+ src))
            (fun _ _ replacement => replacement) "tree /home" world0))
  = ["Output of tree with args /home";
     "eval [" +:+ String dquote ("/home" +:+ String dquote "]")].
Proof. reflexivity. Qed.

(** C4 fails as stated: in the session the page starts in, no File named
    [nosuchcmd] is on the PATH, and the dispatcher returns [undefined],
    whatever [eval] and [replaceAll] are. *)
Lemma handleCommand_nosuchcmd_undefined :
  env_vars (w_env world0) !! "PATH" = Some "/bin"
  /\ no_executable world0 "/bin" (head (tokenize "nosuchcmd")) = true
  /\ forall (ev : string -> M unit) (ra : string -> string -> string -> string),
       fst (handleCommand ev ra "nosuchcmd" world0) = Js.Normal Js.Undefined.
Proof.
  split; [reflexivity|]. split; [reflexivity|]. intros ev ra. reflexivity.
Qed.

(** C4, amended: for every command line whose command name matches no File
    in any directory that the PATH variable lists, [handleCommand] returns
    [undefined] and leaves the environment, the tree and the console as they
    were: nothing is printed and nothing is evaluated. *)
Theorem handleCommand_not_found
    (js_eval : string -> M unit)
    (js_replaceAll : string -> string -> string -> string)
    (v : string) (w : World) (PATH : string) :
  env_vars (w_env w) !! "PATH" = Some PATH ->
  no_executable w PATH (head (tokenize v)) = true ->
  handleCommand js_eval js_replaceAll v w = (Js.Normal Js.Undefined, w).
Proof.
  intros HPATH Hnone. unfold handleCommand, bind, get_world.
  rewrite HPATH. apply search_not_found. exact Hnone.
Qed.

Lemma handleCommand_not_found_witness :
  env_vars (w_env world0) !! "PATH" = Some "/bin"
  /\ no_executable world0 "/bin" (head (tokenize "nosuchcmd")) = true
  /\ handleCommand (fun _ => ret tt) (fun s _ _ => s) "nosuchcmd" world0
     = (Js.Normal Js.Undefined, world0).
Proof.
  split; [reflexivity|]. split; [reflexivity|].
  apply (handleCommand_not_found _ _ "nosuchcmd" world0 "/bin"); reflexivity.
Defined.

(** * Further properties of the code *)

(** ** Permission model on arbitrary strings *)






(** ** Identity registry and node construction *)

(** Every registered user is filed under its own uid and has a registered
    group under its gid. *)
Lemma registry_consistent (id : Z) (u : FsUser) :
  fsUsers !! id = Some u ->
  uid u = id /\ exists g, fsGroups !! gid u = Some g /\ group_gid g = gid u.
Proof.
  unfold fsUsers. intros H.
  destruct (decide (id = 0)) as [->|H0].
  - rewrite lookup_insert_eq in H. injection H as <-.
    split; [reflexivity|]. eexists. split; reflexivity.
  - rewrite lookup_insert_ne in H by congruence.
    destruct (decide (id = 1000)) as [->|H1].
    + rewrite lookup_insert_eq in H. injection H as <-.
      split; [reflexivity|]. eexists. split; reflexivity.
    + rewrite lookup_insert_ne in H by congruence.
      rewrite lookup_empty in H. discriminate H.
Qed.

(** X2: a File or Directory whose owner, given or taken from the
    environment, is a registered user carries that user and the registered
    group of the user's gid: the group is never left undefined. *)
Theorem node_owner_of_registered_user
    (e : Types.Env) (now : Z) (nm : option string) (owner : option FsUser)
    (id : Z) (content : option string) (files : option (list FsNode))
    (perms : option PermSource) :
  fsUsers !! id = Some (default (env_user e) owner) ->
  exists g : FsGroup,
    group_gid g = gid (default (env_user e) owner)
    /\ Types.owner (node_meta (FsFile e now nm content owner perms))
       = {| owner_user := default (env_user e) owner; owner_group := Some g |}
    /\ Types.owner (node_meta (FsDirectory e now nm files owner perms))
       = {| owner_user := default (env_user e) owner; owner_group := Some g |}.
Proof.
  intros H. destruct (registry_consistent _ _ H) as [_ [g [Hg Hgid]]].
  exists g. split; [exact Hgid|].
  unfold FsFile, FsDirectory. cbn [node_meta Types.owner].
  rewrite Hg. split; reflexivity.
Qed.

Lemma node_owner_of_registered_user_witness :
  fsUsers !! 1000 = Some (default (env_user env) None)
  /\ exists g : FsGroup,
       group_gid g = 1000
       /\ Types.owner (node_meta (FsFile env 0 (Some "user.txt") None None None))
          = {| owner_user := user_nyx; owner_group := Some g |}
       /\ Types.owner (node_meta (FsDirectory env 0 (Some "nyx") None None None))
          = {| owner_user := user_nyx; owner_group := Some g |}.
Proof.
  split; [reflexivity|].
  exact (node_owner_of_registered_user env 0 (Some "user.txt") None 1000 None None None
           eq_refl).
Defined.

(** ** Execution environment of a registered user *)

(** X3: for a registered uid, [Env] returns an environment of that user
    whose working directory is the absolute path [/home/<name>], with HOME
    and PWD set to that same path, TMPDIR to [/tmp] and PATH to [/bin]. *)
Theorem Env_of_registered_uid (id : Z) (u : FsUser) :
  fsUsers !! id = Some u ->
  exists e : Types.Env,
    Env id = Js.Normal e
    /\ env_user e = u
    /\ cwd e = Path ("/home/" +:+ user_name u)
    /\ isAbsolute (cwd e) = true
    /\ env_vars e !! "HOME" = Some (toString (cwd e))
    /\ env_vars e !! "PWD" = Some (toString (cwd e))
    /\ env_vars e !! "TMPDIR" = Some "/tmp"
    /\ env_vars e !! "PATH" = Some "/bin".
Proof.
  intros H. unfold Env. rewrite H. eexists. split; [reflexivity|].
  unfold Env_for. cbn [env_user cwd env_vars].
  change (append (Path "/home") (inl (user_name u)))
    with (Path ("/home/" +:+ user_name u)).
  repeat split; try reflexivity; simplify_map_eq; reflexivity.
Qed.

Lemma Env_of_registered_uid_witness :
  fsUsers !! 0 = Some user_root
  /\ exists e : Types.Env,
       Env 0 = Js.Normal e
       /\ env_user e = user_root
       /\ cwd e = Path "/home/root"
       /\ isAbsolute (cwd e) = true
       /\ env_vars e !! "HOME" = Some (toString (cwd e))
       /\ env_vars e !! "PWD" = Some (toString (cwd e))
       /\ env_vars e !! "TMPDIR" = Some "/tmp"
       /\ env_vars e !! "PATH" = Some "/bin".
Proof.
  split; [reflexivity | exact (Env_of_registered_uid 0 user_root eq_refl)].
Defined.

(** ** Segments of a path *)

Lemma split_app_sep (sep : ascii) (a b : string) :
  Js.split sep (a +:+ String sep b) = Js.split sep a ++ Js.split sep b.
Proof.
  induction a as [|c a IH].
  - change (Js.split sep (String sep b) = [""] ++ Js.split sep b).
    cbn [Js.split]. rewrite Ascii.eqb_refl. reflexivity.
  - change (Js.split sep (String c (a +:+ String sep b))
            = Js.split sep (String c a) ++ Js.split sep b).
    cbn [Js.split]. rewrite IH.
    destruct (Ascii.eqb c sep); [reflexivity|].
    destruct (Js.split sep a) as [|h t] eqn:E; [|reflexivity].
    exfalso. exact (split_nonempty sep a E).
Qed.

Lemma last_char_snoc_inv (s : string) (c : ascii) :
  Js.last_char s = Some c -> exists s', s = s' +:+ String c EmptyString.
Proof.
  induction s as [|x s IH]; [discriminate|].
  destruct s as [|y s].
  - intros H. injection H as ->. exists "". reflexivity.
  - intros H. change (Js.last_char (String y s) = Some c) in H.
    destruct (IH H) as [s' Hs']. exists (String x s'). rewrite Hs'. reflexivity.
Qed.

Lemma parts_app_sep (a b : string) :
  parts (Path (a +:+ String slash b)) = parts (Path a) ++ parts (Path b).
Proof.
  unfold parts. cbn [path Path]. rewrite split_app_sep. apply List.filter_app.
Qed.

(** The segments of an appended path are those of the path followed by
    those of the part. *)
Lemma parts_of_append (this : Types.Path) (part : string + Types.Path) :
  parts (append this part) = parts this ++ parts (Path (part_string part)).
Proof.
  unfold append. fold (part_string part).
  destruct this as [p]. cbn [path].
  unfold Js.endsWith. destruct (Js.last_char p) as [d|] eqn:Hl.
  - destruct (Ascii.eqb_spec d slash) as [->|Hne].
    + destruct (last_char_snoc_inv _ _ Hl) as [p' ->].
      replace ((p' +:+ String slash "") +:+ part_string part)
        with (p' +:+ String slash (part_string part))
        by (rewrite append_assoc; reflexivity).
      rewrite !parts_app_sep.
      change (parts (Path "")) with (@nil string). rewrite app_nil_r. reflexivity.
    + apply (parts_app_sep p (part_string part)).
  - apply (parts_app_sep p (part_string part)).
Qed.

(** X4: [parts] never yields an empty segment nor a segment that holds a
    separator, whatever the raw string. *)
Theorem parts_are_proper_segments (p : Types.Path) :
  forallb (fun seg => negb (String.eqb seg "") && negb (has_char slash seg))
    (parts p) = true.
Proof. exact (parts_keep p). Qed.

(** X5: [append] only concatenates segment sequences: the segments of
    [p.append(q)] are the segments of [p] followed by those of [q], whether
    or not [p] ends with a separator and whether [q] is a string or a Path. *)
Theorem parts_append (this : Types.Path) (part : string + Types.Path) :
  parts (append this part) = parts this ++ parts (Path (part_string part)).
Proof. exact (parts_of_append this part). Qed.

(** ** Canonicalization of arbitrary paths *)

(** X6: the result of [canonicalize] is always in canonical form: a
    separator followed by segments that are neither empty nor [.] nor [..],
    one separator between any two. *)
Theorem canonicalize_result_is_canonical (e : Types.Env) (this : Types.Path) :
  is_canonical (path (canonicalize e this)) = true.
Proof. exact (canonicalize_is_canonical e this). Qed.

(** X7: [canonicalize] is idempotent on every path, relative or absolute,
    canonical or not. *)
Theorem canonicalize_idempotent_everywhere (e : Types.Env) (this : Types.Path) :
  canonicalize e (canonicalize e this) = canonicalize e this.
Proof. exact (canonicalize_twice e this). Qed.

Lemma prefix_empty (s : string) : String.prefix "" s = true.
Proof. destruct s; reflexivity. Qed.

Lemma isAbsolute_append (this : Types.Path) (part : string + Types.Path) :
  path this <> "" -> isAbsolute (append this part) = isAbsolute this.
Proof.
  destruct this as [[|c p]]; cbn [path]; [congruence|]. intros _.
  unfold append. cbn [path].
  destruct (Js.endsWith (String c p) slash);
    unfold isAbsolute, Js.startsWith; cbn [path Path];
    change (String c p +:+ ?x) with (String c (p +:+ x));
    cbn [String.prefix]; destruct (ascii_dec "/" c);
    rewrite ?prefix_empty; reflexivity.
Qed.

Lemma parts_of_segment (x : string) :
  truthy x = true -> has_char slash x = false -> parts (Path x) = [x].
Proof.
  intros Ht Hs. unfold parts. cbn [path Path].
  rewrite (split_plain slash x Hs). cbn [List.filter]. rewrite Ht. reflexivity.
Qed.

Lemma parts_toString (p : Types.Path) : parts (Path (toString p)) = parts p.
Proof. reflexivity. Qed.

Lemma canon_steps_app (a b res : list string) :
  fold_left canon_step (a ++ b) res
  = fold_left canon_step b (fold_left canon_step a res).
Proof. apply fold_left_app. Qed.

Lemma canon_push_pop (res : list string) (x : string) :
  canonical_segment x = true ->
  canon_step (canon_step res x) ".." = res.
Proof.
  intros Hx. unfold canonical_segment in Hx.
  apply andb_true_iff in Hx as [Hx Hdd]. apply andb_true_iff in Hx as [_ Hd].
  apply negb_true_iff in Hd, Hdd.
  unfold canon_step at 2. rewrite Hdd, Hd.
  unfold canon_step. cbn [String.eqb Ascii.eqb Bool.eqb].
  unfold Js.pop, Js.push. apply removelast_last.
Qed.

(** X8: a segment followed by [..] cancels: for a path [p] that is not the
    empty string and a proper segment [x], canonicalizing [p/x/..] gives
    what canonicalizing [p] gives. *)
Theorem canonicalize_segment_dotdot
    (e : Types.Env) (p : Types.Path) (x : string) :
  path p <> "" ->
  canonical_segment x = true ->
  has_char slash x = false ->
  canonicalize e (append (append p (inl x)) (inl ".."))
  = canonicalize e p.
Proof.
  intros Hp Hx Hs.
  assert (Ht : truthy x = true).
  { unfold canonical_segment in Hx. apply andb_true_iff in Hx as [Hx _].
    apply andb_true_iff in Hx as [Hx _]. exact Hx. }
  assert (Hpx : path (append p (inl x)) <> "").
  { destruct p as [[|c q]]; cbn [path] in *; [congruence|].
    unfold append. cbn [path].
    destruct (Js.endsWith (String c q) slash); cbn [path Path]; discriminate. }
  unfold canonicalize.
  rewrite (isAbsolute_append _ (inl "..") Hpx), (isAbsolute_append _ (inl x) Hp).
  assert (Hparts : forall q : Types.Path,
             parts (append (append q (inl x)) (inl ".."))
             = parts q ++ [x; ".."]).
  { intros q. rewrite !parts_of_append. cbn [part_string].
    rewrite (parts_of_segment x Ht Hs), <- app_assoc. reflexivity. }
  destruct (isAbsolute p); cbn [negb].
  - rewrite Hparts.
    rewrite canon_steps_app. cbn [fold_left].
    rewrite (canon_push_pop _ x Hx). reflexivity.
  - rewrite (parts_of_append (cwd e) (inr p)),
      (parts_of_append (cwd e) (inr (append (append p (inl x)) (inl "..")))).
    cbn [part_string]. rewrite !parts_toString, Hparts.
    rewrite app_assoc, canon_steps_app. cbn [fold_left].
    rewrite (canon_push_pop _ x Hx). reflexivity.
Qed.

Lemma canonicalize_segment_dotdot_witness :
  path (Path "some dir") <> ""
  /\ canonical_segment "another dir" = true
  /\ has_char slash "another dir" = false
  /\ canonicalize env (append (append (Path "some dir") (inl "another dir")) (inl ".."))
     = canonicalize env (Path "some dir").
Proof.
  split; [discriminate|]. split; [reflexivity|]. split; [reflexivity|].
  apply canonicalize_segment_dotdot; [discriminate | reflexivity | reflexivity].
Defined.

(** ** Resolution *)

Lemma find_first {A} (f : A -> bool) (before : list A) (c : A) (after : list A) :
  forallb (fun n => negb (f n)) before = true ->
  f c = true ->
  find f (before ++ c :: after) = Some c.
Proof.
  induction before as [|b before IH]; intros Hb Hc; cbn [app find].
  - rewrite Hc. reflexivity.
  - cbn [forallb] in Hb. apply andb_true_iff in Hb as [Hb1 Hb2].
    apply negb_true_iff in Hb1. rewrite Hb1. exact (IH Hb2 Hc).
Qed.

Lemma name_is_true (s : string) (n : FsNode) :
  name_is s n = true -> node_name n = Some s.
Proof.
  unfold name_is. destruct (node_name n) as [x|]; [|discriminate].
  intros H. apply String.eqb_eq in H. congruence.
Qed.

(** X9: resolving [p.append(q)] is resolving [p] and then resolving [q]
    from the node found, as if that node were the root; it fails when [p]
    does. *)
Theorem resolve_append (this : Types.Fs) (p : Types.Path) (q : string + Types.Path) :
  resolve this (append p q)
  = match resolve this p with
    | Some n => resolve (Fs n) (Path (part_string q))
    | None => None
    end.
Proof.
  unfold resolve. rewrite parts_of_append, walk_app. reflexivity.
Qed.

(** X10: among children of one name the first wins: when the first segment
    names the child [c] and no child before [c] bears that name, resolution
    goes on from [c], whatever comes after it. *)
Theorem resolve_first_match
    (m : FsMetadata) (before : list FsNode) (c : FsNode) (after : list FsNode)
    (p : Types.Path) (seg : string) (rest : list string) :
  parts p = seg :: rest ->
  name_is seg c = true ->
  forallb (fun n => negb (name_is seg n)) before = true ->
  resolve (Fs (Directory m (before ++ c :: after))) p = walk c rest.
Proof.
  intros Hp Hc Hb. unfold resolve. rewrite Hp. cbn [root Fs walk].
  rewrite (find_first _ _ _ _ Hb Hc). reflexivity.
Qed.

Lemma resolve_first_match_witness :
  let first := FsFile env 0 (Some "dup") (Some "first") None None in
  let second := FsFile env 0 (Some "dup") (Some "second") None None in
  let other := FsFile env 0 (Some "other") None None None in
  let m := node_meta (FsDirectory env 0 None None None None) in
  parts (Path "/dup") = ["dup"]
  /\ resolve (Fs (Directory m ([other] ++ first :: [second]))) (Path "/dup")
     = Some first.
Proof.
  intros first second other m. split; [reflexivity|].
  apply (resolve_first_match m [other] first [second] (Path "/dup") "dup" []);
    reflexivity.
Defined.

(** X11: a node found along at least one segment bears the last segment as
    its name. *)
Theorem resolve_name_is_last_segment
    (this : Types.Fs) (p : Types.Path) (segs : list string) (seg : string)
    (n : FsNode) :
  parts p = segs ++ [seg] ->
  resolve this p = Some n ->
  node_name n = Some seg.
Proof.
  intros Hp. unfold resolve. rewrite Hp, walk_app.
  destruct (walk (root this) segs) as [[m c | m contents]|]; cbn [walk];
    try discriminate.
  destruct (find (name_is seg) contents) as [x|] eqn:Hfind; [|discriminate].
  intros H. injection H as <-.
  apply find_some in Hfind as [_ Hname]. exact (name_is_true _ _ Hname).
Qed.

Lemma resolve_name_is_last_segment_witness :
  parts (Path "/home/nyx/.config") = ["home"; "nyx"] ++ [".config"]
  /\ exists n, resolve (fs env 0) (Path "/home/nyx/.config") = Some n
               /\ node_name n = Some ".config".
Proof.
  split; [reflexivity|]. eexists. split; [reflexivity|].
  eapply (resolve_name_is_last_segment (fs env 0) (Path "/home/nyx/.config")
            ["home"; "nyx"] ".config"); reflexivity.
Defined.

(** ** Whole command lines *)


Lemma last_char_nonempty (c : ascii) (s : string) :
  exists d, Js.last_char (String c s) = Some d.
Proof.
  revert c. induction s as [|x s IH]; intros c; [exists c; reflexivity|].
  exact (IH x).
Qed.

Lemma scan_from_app (a b : string) (prev : option ascii) (st : scan) :
  scan_from prev st (a +:+ b)
  = scan_from (match Js.last_char a with Some c => Some c | None => prev end)
      (scan_from prev st a) b.
Proof.
  revert prev st. induction a as [|c a IH]; intros prev st; [reflexivity|].
  change (scan_from (Some c) (scan_char prev (Some c) st) (a +:+ b)
          = scan_from
              (match Js.last_char (String c a) with
               | Some d => Some d
               | None => prev
               end)
              (scan_from (Some c) (scan_char prev (Some c) st) a) b).
  rewrite IH. destruct a as [|d a]; [reflexivity|].
  change (Js.last_char (String c (String d a))) with (Js.last_char (String d a)).
  destruct (last_char_nonempty d a) as [x ->]. reflexivity.
Qed.

(** Inside the quoted mode everything but a quote is kept. *)
Lemma scan_from_quoted (s : string) (prev : option ascii) (st : scan) :
  has_char dquote s = false ->
  quoted st = true ->
  scan_from prev st s
  = {| part := part st +:+ s; res := res st; quoted := true |}.
Proof.
  revert prev st. induction s as [|c s IH]; intros prev st Hq Hst.
  - cbn [scan_from]. rewrite append_empty_r. destruct st; cbn in *. congruence.
  - change (has_char dquote (String c s))
      with (Ascii.eqb dquote c || has_char dquote s) in Hq.
    apply orb_false_iff in Hq as [Hc Hs].
    cbn [scan_from].
    assert (Hstep : scan_char prev (Some c) st
                    = {| part := part st +:+ String c EmptyString;
                         res := res st; quoted := true |}).
    { unfold scan_char, is_char. rewrite (Ascii.eqb_sym c dquote), Hc, Hst.
      cbn [andb negb]. rewrite andb_false_r. reflexivity. }
    rewrite Hstep.
    rewrite (IH (Some c) {| part := part st +:+ String c EmptyString;
                            res := res st; quoted := true |} Hs eq_refl).
    cbn [part res].
    rewrite append_assoc. reflexivity.
Qed.

(** Tokens already emitted are carried along unchanged. *)
Lemma scan_from_shift (s : string) (prev : option ascii) (R : list string)
    (p : string) (R' : list string) (q : bool) :
  scan_from prev {| part := p; res := R ++ R'; quoted := q |} s
  = let r := scan_from prev {| part := p; res := R'; quoted := q |} s in
    {| part := part r; res := R ++ res r; quoted := quoted r |}.
Proof.
  revert prev p R' q. induction s as [|c s IH]; intros prev p R' q; [reflexivity|].
  cbn [scan_from]. unfold scan_char. cbn [part res quoted].
  destruct (is_char dquote (Some c) && negb (is_char backslash prev)).
  - apply IH.
  - destruct (is_char space (Some c) && negb q).
    + unfold Js.push. rewrite <- app_assoc. apply IH.
    + apply IH.
Qed.

(** Only whether the character before is a backslash matters. *)
Lemma scan_from_prev (s : string) (prev prev' : option ascii) (st : scan) :
  is_char backslash prev = is_char backslash prev' ->
  scan_from prev st s = scan_from prev' st s.
Proof.
  intros H. destruct s as [|c s]; [reflexivity|].
  cbn [scan_from]. unfold scan_char. rewrite H. reflexivity.
Qed.

Lemma is_backslash_last (a : string) (prev : option ascii) :
  Js.last_char a <> Some backslash ->
  is_char backslash prev = false ->
  is_char backslash (match Js.last_char a with Some c => Some c | None => prev end)
  = false.
Proof.
  intros Ha Hp. destruct (Js.last_char a) as [c|]; [|exact Hp].
  cbn [is_char]. apply Ascii.eqb_neq. congruence.
Qed.

(** X12: a line without any double quote is split exactly at its spaces,
    empty tokens included, and joining its tokens with single spaces gives
    the line back. *)
Theorem tokenize_without_quotes (v : string) :
  has_char dquote v = false ->
  tokenize v = Js.split space v /\ Js.join " " (tokenize v) = v.
Proof.
  intros Hq. rewrite (tokenize_plain v Hq). split; [reflexivity|].
  apply (join_split space v).
Qed.

Lemma tokenize_without_quotes_witness :
  has_char dquote "cat  a b " = false
  /\ tokenize "cat  a b " = ["cat"; ""; "a"; "b"; ""]
  /\ Js.join " " (tokenize "cat  a b ") = "cat  a b ".
Proof.
  split; [reflexivity|].
  exact (tokenize_without_quotes "cat  a b " eq_refl).
Defined.

(** X13: a line that is one quoted stretch, [s] between two double quotes,
    is the single token [s], spaces kept, provided [s] holds no double quote
    and does not end with a backslash. *)
Theorem tokenize_quoted_block (s : string) :
  has_char dquote s = false ->
  Js.last_char s <> Some backslash ->
  tokenize (String dquote (s +:+ String dquote EmptyString)) = [s].
Proof.
  intros Hq Hlast. unfold tokenize. rewrite scan_upto_all.
  cbn [scan_from].
  change (scan_char None (Some dquote) scan_init)
    with {| part := ""; res := []; quoted := true |}.
  rewrite scan_from_app.
  rewrite (scan_from_quoted s (Some dquote)
             {| part := ""; res := []; quoted := true |} Hq eq_refl).
  cbn [scan_from part res]. unfold scan_char.
  change (is_char dquote (Some dquote)) with true.
  rewrite (is_backslash_last s (Some dquote) Hlast eq_refl).
  reflexivity.
Qed.

Lemma tokenize_quoted_block_witness :
  has_char dquote "hello  world " = false
  /\ Js.last_char "hello  world " <> Some backslash
  /\ tokenize (String dquote ("hello  world " +:+ String dquote EmptyString))
     = ["hello  world "].
Proof.
  split; [reflexivity|]. split; [discriminate|].
  apply tokenize_quoted_block; [reflexivity | discriminate].
Defined.

(** X14: a space met outside the quoted mode separates two lines that are
    scanned on their own: when the scan of [a] ends outside the quoted mode,
    the tokens of [a b] are those of [a] followed by those of [b]. *)
Theorem tokenize_at_unquoted_space (a b : string) :
  quoted (scan_upto a (String.length a)) = false ->
  tokenize (a +:+ String space b) = tokenize a ++ tokenize b.
Proof.
  intros Hq. unfold tokenize. rewrite !scan_upto_all in *.
  rewrite scan_from_app. cbn [scan_from].
  set (ra := scan_from None scan_init a) in *.
  assert (Hstep : forall prev,
             scan_char prev (Some space) ra
             = {| part := ""; res := Js.push (res ra) (part ra) ++ [];
                  quoted := false |}).
  { intros prev. unfold scan_char.
    change (is_char dquote (Some space)) with false.
    change (is_char space (Some space)) with true.
    rewrite Hq, app_nil_r. reflexivity. }
  rewrite Hstep, scan_from_shift. cbv zeta. cbn [part res].
  rewrite (scan_from_prev b (Some space) None) by reflexivity.
  unfold Js.push, scan_init. rewrite <- !app_assoc. reflexivity.
Qed.

Lemma tokenize_at_unquoted_space_witness :
  let a := "cat " +:+ String dquote ("hello world" +:+ String dquote EmptyString) in
  let b := String dquote ("x y" +:+ String dquote " z") in
  quoted (scan_upto a (String.length a)) = false
  /\ tokenize (a +:+ String space b) = ["cat"; "hello world"; "x y"; "z"]
  /\ tokenize a ++ tokenize b = ["cat"; "hello world"; "x y"; "z"].
Proof.
  intros a b. split; [reflexivity|]. split; [|reflexivity].
  rewrite (tokenize_at_unquoted_space a b eq_refl). reflexivity.
Defined.

(** ** Search along the PATH *)

Section SearchFacts.

Variable js_eval : string -> M unit.
Variable js_replaceAll : string -> string -> string -> string.

(** Entries that do not resolve to a directory are passed over. *)
Lemma search_skips (cmd : option string) (args skipped paths : list string)
    (w : World) :
  forallb (fun d => negb (is_directory_at w d)) skipped = true ->
  search js_eval js_replaceAll cmd args (skipped ++ paths) w
  = search js_eval js_replaceAll cmd args paths w.
Proof.
  induction skipped as [|d skipped IH]; intros H; [reflexivity|].
  cbn [forallb] in H. apply andb_true_iff in H as [Hd Hs].
  apply negb_true_iff in Hd. unfold is_directory_at in Hd.
  cbn [app search]. unfold bind at 1, get_world.
  destruct (resolve (w_fs w) (Path d)) as [[m c | m contents]|];
    [exact (IH Hs) | discriminate Hd | exact (IH Hs)].
Qed.

(** A directory without a File of the name ends the search. *)
Lemma search_ends (cmd : option string) (args : list string) (dir : string)
    (rest : list string) (w : World) :
  is_directory_at w dir = true ->
  dir_lacks w cmd dir = true ->
  search js_eval js_replaceAll cmd args (dir :: rest) w
  = (Js.Normal Js.Undefined, w).
Proof.
  unfold is_directory_at, dir_lacks. intros Hdir Hlacks.
  cbn [search]. unfold bind at 1, get_world.
  destruct (resolve (w_fs w) (Path dir)) as [[m c | m contents]|];
    try discriminate Hdir.
  destruct (find (fun f => strict_eq (node_name f) cmd) contents)
    as [f|] eqn:Hfind; [|reflexivity].
  pose proof (find_not_file _ _ _ Hlacks Hfind) as Hf.
  destruct f; [discriminate Hf | reflexivity].
Qed.

End SearchFacts.

(** X15: the search ends at the first PATH entry that resolves to a
    directory when that directory holds no File of the command's name:
    [handleCommand] then returns [undefined] with nothing printed or
    evaluated, and the entries after it are never looked at, even if one of
    them holds the command. *)
Theorem handleCommand_stops_at_first_directory
    (js_eval : string -> M unit)
    (js_replaceAll : string -> string -> string -> string)
    (v : string) (w : World) (PATH : string)
    (skipped : list string) (dir : string) (rest : list string) :
  env_vars (w_env w) !! "PATH" = Some PATH ->
  Js.split ":"%char PATH = skipped ++ dir :: rest ->
  forallb (fun d => negb (is_directory_at w d)) skipped = true ->
  is_directory_at w dir = true ->
  dir_lacks w (head (tokenize v)) dir = true ->
  handleCommand js_eval js_replaceAll v w = (Js.Normal Js.Undefined, w).
Proof.
  intros HPATH Hsplit Hskip Hdir Hlacks.
  unfold handleCommand, bind, get_world. rewrite HPATH, Hsplit.
  rewrite (search_skips _ _ _ _ _ _ _ Hskip).
  exact (search_ends _ _ _ _ _ _ _ Hdir Hlacks).
Qed.

Lemma handleCommand_stops_at_first_directory_witness :
  let w := {| w_env := {| cwd := cwd env; env_user := env_user env;
                          env_vars := <[ "PATH" := "/nowhere:/home:/bin" ]>
                                        (env_vars env) |};
              w_fs := fs env 0; console := [] |} in
  env_vars (w_env w) !! "PATH" = Some "/nowhere:/home:/bin"
  /\ Js.split ":"%char "/nowhere:/home:/bin" = ["/nowhere"] ++ "/home" :: ["/bin"]
  /\ dir_lacks w (head (tokenize "tree /")) "/bin" = false
  /\ handleCommand (fun _ => ret tt) (fun s _ _ => s) "tree /" w
     = (Js.Normal Js.Undefined, w).
Proof.
  intros w. split; [reflexivity|]. split; [reflexivity|]. split; [reflexivity|].
  apply (handleCommand_stops_at_first_directory _ _ "tree /" w
           "/nowhere:/home:/bin" ["/nowhere"] "/home" ["/bin"]); reflexivity.
Defined.

(** X16: with no PATH variable in the environment, [handleCommand] ends in
    a TypeError thrown by [env.env.PATH.split], whatever the line, and
    leaves the environment, the tree and the console as they were. *)
Theorem handleCommand_without_PATH
    (js_eval : string -> M unit)
    (js_replaceAll : string -> string -> string -> string)
    (v : string) (w : World) :
  env_vars (w_env w) !! "PATH" = None ->
  handleCommand js_eval js_replaceAll v w
  = (Js.Throw (Js.TypeError "Cannot read properties of undefined (reading 'split')"),
     w).
Proof.
  intros H. unfold handleCommand, bind, get_world. rewrite H. reflexivity.
Qed.

Lemma handleCommand_without_PATH_witness :
  let w := {| w_env := {| cwd := cwd env; env_user := env_user env;
                          env_vars := delete "PATH" (env_vars env) |};
              w_fs := fs env 0; console := [] |} in
  env_vars (w_env w) !! "PATH" = None
  /\ handleCommand (fun _ => ret tt) (fun s _ _ => s) "tree" w
     = (Js.Throw (Js.TypeError "Cannot read properties of undefined (reading 'split')"),
        w).
Proof.
  intros w. split; [reflexivity|].
  apply handleCommand_without_PATH. reflexivity.
Defined.

(** ** The binaries *)

(** Induction over a tree, the children of a directory included. *)
Lemma FsNode_nested_ind (P : FsNode -> Prop) :
  (forall m c, P (File m c)) ->
  (forall m contents, Forall P contents -> P (Directory m contents)) ->
  forall n, P n.
Proof.
  intros Hf Hd. fix IH 1. intros [m c | m contents]; [apply Hf|].
  apply Hd. induction contents as [|x contents IHc]; constructor;
    [apply IH | exact IHc].
Qed.

Lemma list_sum_cons (a : nat) (l : list nat) :
  list_sum (a :: l) = (a + list_sum l)%nat.
Proof. reflexivity. Qed.

Lemma node_count_pos (n : FsNode) : (1 <= node_count n)%nat.
Proof. destruct n; cbn [node_count]; lia. Qed.

(** [_tree] prints one line for each node below the one it is given. *)
Lemma _tree_length (n : FsNode) :
  forall depthBuf, List.length (_tree n depthBuf) = pred (node_count n).
Proof.
  induction n as [m c | m contents IH] using FsNode_nested_ind;
    intros depthBuf; [reflexivity|].
  cbn [_tree node_count pred].
  induction IH as [|x contents Hx _ IHc]; [reflexivity|].
  cbn [map]. rewrite list_sum_cons, length_app, IHc.
  destruct x as [mx cx | mx csx]; [reflexivity|].
  cbn [List.length]. rewrite Hx.
  pose proof (node_count_pos (Directory mx csx)). lia.
Qed.

Lemma tree_loop_length (l : list FsNode) :
  List.length (tree_loop l) = list_sum (map node_count l).
Proof.
  induction l as [|x l IH]; [reflexivity|].
  cbn [tree_loop map]. rewrite list_sum_cons, length_app, IH.
  destruct x as [mx cx | mx csx]; [reflexivity|].
  cbn [List.length]. rewrite _tree_length.
  pose proof (node_count_pos (Directory mx csx)). lia.
Qed.

(** X17: [tree] prints exactly one line for each node of the subtree it is
    given, the node itself included: no node is left out and none is
    printed twice. *)
Theorem tree_prints_one_line_per_node (n : FsNode) :
  List.length (tree n) = node_count n.
Proof.
  destruct n as [m c | m contents]; [reflexivity|].
  cbn [tree List.length node_count]. rewrite tree_loop_length. reflexivity.
Qed.

(** X18: [cat] prints at most one line, and prints for a path what it
    prints for the canonical form of that path. *)
Theorem cat_of_canonical_form (e : Types.Env) (this : Types.Fs) (p : Types.Path) :
  cat e this (canonicalize e p) = cat e this p
  /\ (List.length (cat e this p) <= 1)%nat.
Proof.
  unfold cat. rewrite canonicalize_twice. split; [reflexivity|].
  destruct (resolve this (canonicalize e p)) as [[m c | m cs]|]; cbn; lia.
Qed.

(** ** A command that is found *)



(** ** Absolute and relative paths *)

(** X20: appending to a path that is not the empty string keeps it absolute
    or relative as it was; appending to the empty path always gives an
    absolute path, the part behind one separator. *)
Theorem append_keeps_absolute (this : Types.Path) (part : string + Types.Path) :
  isAbsolute (append this part)
  = (if String.eqb (path this) "" then true else isAbsolute this)
  /\ append (Path "") part = Path ("/" +:+ part_string part).
Proof.
  split; [|destruct part; reflexivity].
  destruct (String.eqb_spec (path this) "") as [He|Hne].
  - destruct this as [p]. cbn [path] in He. subst p.
    destruct part; apply isAbsolute_slash.
  - apply isAbsolute_append, Hne.
Qed.

Lemma filter_truthy_all (l : list string) :
  forallb (fun x => canonical_segment x && negb (has_char slash x)) l = true ->
  List.filter truthy l = l.
Proof.
  intros H. apply filter_all. revert H. apply forallb_weaken.
  intros x Hx. apply andb_true_iff in Hx as [Hx _].
  unfold canonical_segment in Hx. apply andb_true_iff in Hx as [Hx _].
  apply andb_true_iff in Hx as [Hx _]. exact Hx.
Qed.

(** X21: joining and splitting lose nothing: the segments of the result of
    [canonicalize] are exactly what its loop leaves on the array, for the
    path itself when it is absolute and for the working directory followed
    by the path when it is relative. *)
Theorem parts_of_canonicalize (e : Types.Env) (this : Types.Path) :
  parts (canonicalize e this)
  = fold_left canon_step
      (if isAbsolute this then parts this else parts (cwd e) ++ parts this) [].
Proof.
  assert (Htmp : (if isAbsolute this then parts this
                  else parts (cwd e) ++ parts this)
                 = parts (if negb (isAbsolute this)
                          then append (cwd e) (inr this) else this)).
  { destruct (isAbsolute this); cbn [negb]; [reflexivity|].
    rewrite parts_of_append. cbn [part_string]. rewrite parts_toString.
    reflexivity. }
  rewrite Htmp. unfold canonicalize.
  set (tmp := if negb (isAbsolute this) then append (cwd e) (inr this) else this).
  pose proof (canon_steps_keep (parts tmp) [] (parts_keep tmp) eq_refl) as Hkeep.
  destruct (fold_left canon_step (parts tmp) []) as [|x l] eqn:E; [reflexivity|].
  unfold parts at 1. cbn [path Path].
  change ("/" +:+ Js.join "/" (x :: l))
    with (String slash (Js.join (String slash "") (x :: l))).
  cbn [Js.split]. rewrite Ascii.eqb_refl. cbn [List.filter truthy String.eqb negb].
  rewrite split_join.
  - apply filter_truthy_all, Hkeep.
  - discriminate.
  - revert Hkeep. apply forallb_weaken. intros y Hy.
    apply andb_true_iff in Hy as [_ Hy]. exact Hy.
Qed.
